(** * mach: the router middleware and the node server binding

    A shallow embedding of [lib/router.js] (makeRouter, router, router.run,
    router.route, the verb sugar, makeAccessorsForIndex) and of
    [bindAppToNodeServer] of [lib/index.js], with the properties the
    specification states about them. *)

From stdpp Require Import base option list strings gmap.
From Stdlib Require Import ZArith Lia Ascii.


(** ** JavaScript values and strings *)

Module JS.

(** The primitive values that flow through the router: capture groups are
    strings or [undefined]; a named accessor may store any value. *)
Inductive value : Type :=
  | VUndefined
  | VString (s : string)
  | VNumber (n : Z).

(** What a [throw] raises and a rejected promise carries. Any value can be
    thrown: an object made by [new Error(msg)], a [TypeError] raised by the
    runtime, [null], or a primitive value, [undefined] included. *)
Inductive error : Type :=
  | Error (message : string)
  | TypeError
  | Null
  | Thrown (v : value).

(** [String.prototype.toUpperCase], on the ASCII letters. *)
Definition upper_ascii (c : ascii) : ascii :=
  let n := nat_of_ascii c in
  if (97 <=? n)%nat && (n <=? 122)%nat then ascii_of_nat (n - 32) else c.

Fixpoint toUpperCase (s : string) : string :=
  match s with
  | EmptyString => EmptyString
  | String c s' => String (upper_ascii c) (toUpperCase s')
  end.

Definition is_lower (c : ascii) : bool :=
  let n := nat_of_ascii c in (97 <=? n)%nat && (n <=? 122)%nat.

Fixpoint has_lower (s : string) : bool :=
  match s with
  | EmptyString => false
  | String c s' => is_lower c || has_lower s'
  end.

(** The property names every object literal inherits from
    [Object.prototype]: [o[name]] is truthy for them although [o] has no own
    property of that name. *)
Definition object_prototype_names : list string :=
  [ "constructor"; "toString"; "toLocaleString"; "valueOf";
    "hasOwnProperty"; "isPrototypeOf"; "propertyIsEnumerable";
    "__defineGetter__"; "__defineSetter__"; "__lookupGetter__";
    "__lookupSetter__"; "__proto__" ].

Definition inherited (name : string) : bool :=
  bool_decide (name ∈ object_prototype_names).

(** Arrays: [a[i]] reads [undefined] out of range, [a[i] = v] extends the
    array (the holes read [undefined]) when [i] is past the end. *)
Definition array_get (a : list value) (i : nat) : value :=
  default VUndefined (a !! i).

Definition array_set (a : list value) (i : nat) (v : value) : list value :=
  if decide (i < length a)%nat then <[i := v]> a
  else a ++ replicate (i - length a) VUndefined ++ [v].

(** A regular expression, as far as the router uses it: [exec] on a subject
    string returns the match array (slot 0 the whole match, then one slot per
    capture group) or [null]. Expressions are taken without the [g] and [y]
    flags, so [exec] keeps no state between calls. *)
Record RegExp : Type := { exec : string → option (list value) }.

(** The values a caller may hand to [router.route] as its pattern. *)
Inductive pattern_arg : Type :=
  | PUndefined
  | PNull
  | PBoolean (b : bool)
  | PNumber (n : Z)
  | PString (s : string)
  | PRegExp (re : RegExp)
  | PObject.

End JS.
Export JS.

(** ** Requests, responses and apps *)

(** A property descriptor with a getter and a setter, as
    [Object.defineProperties] takes it. [this] is the array the property is
    defined on. *)
Record accessor : Type := {
  get : list value → value;
  set : value → list value → list value
}.

(** The object the router stores in [request.route]: a plain array holding
    the captures, with the accessor properties defined on it. *)
Record routeData : Type := {
  elems : list value;
  props : gmap string accessor
}.

(** [data[i]], [data.name] and [data.name = v] for an accessor property
    [name]; [None] when the array has no accessor of that name. *)
Definition index (d : routeData) (i : nat) : value := array_get (elems d) i.

Definition read (d : routeData) (name : string) : option value :=
  (λ a, get a (elems d)) <$> props d !! name.

Definition write (d : routeData) (name : string) (v : value) : option routeData :=
  (λ a, {| elems := set a v (elems d); props := props d |}) <$> props d !! name.

(** The body of a response: the bytes its stream yields, and whether the
    stream has a [destroy] method. *)
Record stream : Type := {
  data : string;
  destroyable : bool
}.

Record response : Type := {
  status : Z;
  headers : gmap string value;
  content : stream
}.

(** A settled promise for a response. *)
Inductive outcome : Type :=
  | Fulfilled (r : response)
  | Rejected (e : error).

(** What calling an app function does: it returns a response, returns a
    promise, or throws. *)
Inductive app_result : Type :=
  | Return (r : response)
  | Await (p : outcome)
  | Throw (e : error).

Module Request.

(** The request object. It is mutable and shared by every app of one
    dispatch, so an app is given the request and hands it back as it left
    it. *)
Record request : Type := {
  method : string;
  pathInfo : string;
  queryString : string;
  route : option routeData
}.

Definition set_route (this : request) (d : routeData) : request :=
  {| method := method this; pathInfo := pathInfo this;
     queryString := queryString this; route := Some d |}.

Definition App : Type := request → app_result * request.

(** Modelled from the spec: [Request.prototype.call] of lib/request.js, which
    is not among the sources. Calling an app with a request always returns a
    deferred response, whether the app is synchronous or not; an app that
    throws is a failed dispatch, like one whose deferred result rejects. *)
Definition call (this : request) (app : App) : outcome * request :=
  let (res, this') := app this in
  (match res with
   | Return r => Fulfilled r
   | Await p => p
   | Throw e => Rejected e
   end, this').

End Request.
Abbreviation request := Request.request.
Abbreviation App := Request.App.

(** ** utils *)

Module utils.

(** Modelled from the spec: [utils.slice] of lib/utils.js, which is not among
    the sources. The match result is constructed from the captures: a fresh
    plain array with the elements from [start] on. *)
Definition slice (a : list value) (start : nat) : list value := drop start a.

(** [utils.isRegExp]. *)
Definition isRegExp (p : pattern_arg) : bool :=
  match p with PRegExp _ => true | _ => false end.

(** Modelled from the spec: [utils.defaultApp] of lib/utils.js, which is not
    among the sources: the well-known app that answers "not found", a
    404-equivalent response naming nothing but the miss. *)
Definition defaultApp : App :=
  λ request,
    (Return {| status := 404;
               headers := {[ "Content-Type" := VString "text/plain" ]};
               content := {| data := "Not Found"; destroyable := false |} |},
     request).

(** Modelled from the spec: [utils.statusHasContent] of lib/utils.js, which is
    not among the sources. The statuses defined to carry no body are the
    informational ones, 204 and 304. *)
Definition statusHasContent (status : Z) : bool :=
  negb ((100 <=? status)%Z && (status <? 200)%Z
        || (status =? 204)%Z || (status =? 304)%Z).

(** Modelled from the spec: [utils.compileRoute] of lib/utils.js, which is not
    among the sources. The template is walked left to right, segment by
    segment; a segment [:name] (a name is an identifier: a letter, [_] or [$],
    then letters, digits, [_] and [$]) becomes a capturing wildcard that
    matches one non-empty path segment, and its name is recorded at its
    ordinal position; every other segment is matched verbatim. *)
Inductive segment : Type :=
  | Literal (s : string)
  | Named (name : string).

Fixpoint split (sep : ascii) (s : string) : list string :=
  match s with
  | EmptyString => [EmptyString]
  | String c s' =>
      if decide (c = sep) then EmptyString :: split sep s'
      else match split sep s' with
           | x :: xs => String c x :: xs
           | [] => [String c EmptyString]
           end
  end.

Definition is_name_start (c : ascii) : bool :=
  let n := nat_of_ascii c in
  (97 <=? n)%nat && (n <=? 122)%nat || (65 <=? n)%nat && (n <=? 90)%nat
  || (n =? 95)%nat || (n =? 36)%nat.

Definition is_name_char (c : ascii) : bool :=
  let n := nat_of_ascii c in
  is_name_start c || (48 <=? n)%nat && (n <=? 57)%nat.

Fixpoint all_chars (p : ascii → bool) (s : string) : bool :=
  match s with
  | EmptyString => true
  | String c s' => p c && all_chars p s'
  end.

Definition parse_segment (s : string) : segment :=
  match s with
  | String ":" (String c rest as name) =>
      if is_name_start c && all_chars is_name_char rest then Named name
      else Literal s
  | _ => Literal s
  end.

Definition parse (template : string) : list segment :=
  parse_segment <$> split "/" template.

Fixpoint names (segs : list segment) : list string :=
  match segs with
  | [] => []
  | Literal _ :: segs' => names segs'
  | Named name :: segs' => name :: names segs'
  end.

Fixpoint match_segments (segs : list segment) (parts : list string)
  : option (list value) :=
  match segs, parts with
  | [], [] => Some []
  | Literal s :: segs', p :: parts' =>
      if decide (s = p) then match_segments segs' parts' else None
  | Named _ :: segs', p :: parts' =>
      if decide (p = "") then None
      else cons (VString p) <$> match_segments segs' parts'
  | _, _ => None
  end.

Definition compileRoute (template : string) : RegExp * list string :=
  let segs := parse template in
  ({| exec := λ path,
        cons (VString path) <$> match_segments segs (split "/" path) |},
   names segs).

End utils.

(** ** lib/router.js *)

(** The getter and the setter of a named segment: both go through slot
    [index + 1] of the array they are installed on. *)
Definition makeAccessorsForIndex (index : nat) : accessor :=
  {| get := λ this, array_get this (index + 1);
     set := λ value this, array_set this (index + 1) value |}.

(** [Array.prototype.reduce] with the index passed to the callback. *)
Fixpoint reduce {A B : Type} (f : B → A → nat → B) (l : list A)
    (index : nat) (memo : B) : B :=
  match l with
  | [] => memo
  | x :: l' => reduce f l' (S index) (f memo x index)
  end.

(** [memo[key] = d] on an object literal: an own property is created or
    overwritten, except for the key [__proto__], whose assignment goes to the
    inherited setter and leaves the own properties alone. *)
Definition assign (memo : gmap string accessor) (key : string) (d : accessor)
  : gmap string accessor :=
  if decide (key = "__proto__") then memo else <[key := d]> memo.

(** The callback of [keys.reduce] in [router.route]. *)
Definition install (memo : gmap string accessor) (key : string) (index : nat)
  : gmap string accessor :=
  assign memo key (makeAccessorsForIndex index).

(** [Object.defineProperties(array, descriptors)]: the array's [length] is
    not configurable, so a descriptor for it is refused with a TypeError;
    every other name (the names are identifiers, never array indices) becomes
    an accessor property of the array. *)
Definition defineProperties (a : list value) (descriptors : gmap string accessor)
  : error + routeData :=
  match descriptors !! "length" with
  | Some _ => inl TypeError
  | None => inr {| elems := a; props := descriptors |}
  end.

Module Router.

Record Route : Type := {
  pattern : RegExp;
  app : App;
  accessors : gmap string accessor
}.

(** The variables [makeRouter] closes over. *)
Record state : Type := {
  defaultApp : App;
  routes : gmap string (list Route)
}.

(** [routes[name]] on the object literal [routes]. *)
Inductive property : Type :=
  | Own (rs : list Route)
  | Inherited
  | Absent.

Definition lookup (routes : gmap string (list Route)) (name : string) : property :=
  match routes !! name with
  | Some rs => Own rs
  | None => if inherited name then Inherited else Absent
  end.

Definition bucket (st : state) (name : string) : list Route :=
  default [] (routes st !! name).

(** The third argument of [router.route]. *)
Inductive methods_arg : Type :=
  | MUndefined
  | MString (s : string)
  | MArray (ms : list string).

Module Verb.
Inductive verb : Type := get | post | put | delete | head | options.
End Verb.

(** The configuration calls run against the router's state and may throw. *)
Definition M (A : Type) : Type := state → (error + A) * state.

#[export] Instance M_ret : MRet M := λ A a st, (inr a, st).
#[export] Instance M_bind : MBind M := λ A B k m st,
  match m st with
  | (inl e, st') => (inl e, st')
  | (inr a, st') => k a st'
  end.
Definition throw {A : Type} (e : error) : M A := λ st, (inl e, st).

Fixpoint forEach {A : Type} (f : A → M unit) (l : list A) : M unit :=
  match l with
  | [] => mret ()
  | x :: l' => f x ≫= λ _, forEach f l'
  end.

Section router.

(** [utils.compileRoute] and [utils.defaultApp], which live in lib/utils.js:
    the compiler returns the expression and the keys it pushed. *)
Variable compileRoute : string → RegExp * list string.
Variable utils_defaultApp : App.

(** [defaultApp = defaultApp || utils.defaultApp; var routes = {}]. *)
Definition makeRouter (defaultApp : option App) : state :=
  {| defaultApp := default utils_defaultApp defaultApp; routes := ∅ |}.

(** [(routes[method] || []).concat(routes.ANY || [])]. *)
Definition routesToTry (st : state) (method : string) : error + list Route :=
  match lookup (routes st) method with
  | Own rs => inr (rs ++ bucket st "ANY")
  | Absent => inr ([] ++ bucket st "ANY")
  | Inherited => inl TypeError
  end.

(** The [for] loop of [router]: the first route whose pattern matches. *)
Fixpoint first_match (routesToTry : list Route) (pathInfo : string)
  : option (Route * list value) :=
  match routesToTry with
  | [] => None
  | route :: rest =>
      match exec (pattern route) pathInfo with
      | Some m => Some (route, m)
      | None => first_match rest pathInfo
      end
  end.

(** [return request.call(app)]. *)
Definition return_call (request : Request.request) (app : App)
  : app_result * Request.request :=
  let (p, request') := Request.call request app in (Await p, request').

(** What [router] does to the request before it hands it on: the app it
    delegates to and the request as that app receives it. *)
Definition dispatch (st : state) (request : Request.request)
  : error + (App * Request.request) :=
  match routesToTry st (Request.method request) with
  | inl e => inl e
  | inr rs =>
      match first_match rs (Request.pathInfo request) with
      | Some (route, m) =>
          match defineProperties (utils.slice m 0) (accessors route) with
          | inl e => inl e
          | inr routeData => inr (app route, Request.set_route request routeData)
          end
      | None => inr (defaultApp st, request)
      end
  end.

Definition router (st : state) : App :=
  λ request,
    match dispatch st request with
    | inl e => (Throw e, request)
    | inr (app, request') => return_call request' app
    end.

(** [router.run]. *)
Definition run (app : App) : M unit :=
  λ st, (inr (), {| defaultApp := app; routes := routes st |}).

(** The callback of [methods.forEach]. *)
Definition add (route : Route) (method : string) : M unit :=
  λ st,
    let method := toUpperCase method in
    match lookup (routes st) method with
    | Own rs =>
        (inr (), {| defaultApp := defaultApp st;
                    routes := <[method := rs ++ [route]]> (routes st) |})
    | Absent =>
        (inr (), {| defaultApp := defaultApp st;
                    routes := <[method := [route]]> (routes st) |})
    | Inherited => (inl TypeError, st)
    end.

(** [router.route], statement by statement: the methods are normalised, a
    string pattern is compiled, anything but a RegExp is refused, the route
    object is built and pushed on the bucket of every method. *)
Definition methods_list (methods : methods_arg) : list string :=
  match methods with
  | MString s => [s]
  | MUndefined => ["ANY"]
  | MArray ms => ms
  end.

Definition compile (pattern : pattern_arg) : pattern_arg * list string :=
  match pattern with
  | PString s => let (re, keys) := compileRoute s in (PRegExp re, keys)
  | _ => (pattern, [])
  end.

Definition new_route (re : RegExp) (app : App) (keys : list string) : Route :=
  {| pattern := re; app := app;
     accessors := reduce install keys 0 ∅ |}.

Definition route (pattern : pattern_arg) (app : App) (methods : methods_arg)
  : M unit :=
  let methods := methods_list methods in
  let '(pattern, keys) := compile pattern in
  if utils.isRegExp pattern then
    match pattern with
    | PRegExp re => forEach (add (new_route re app keys)) methods
    | _ => mret ()
    end
  else throw (Error "Pattern must be a RegExp").

(** The sugar methods for the common verbs. *)
Definition methodVerbs (v : Verb.verb) : methods_arg :=
  match v with
  | Verb.get => MArray ["GET"; "HEAD"]
  | Verb.post => MString "POST"
  | Verb.put => MString "PUT"
  | Verb.delete => MString "DELETE"
  | Verb.head => MString "HEAD"
  | Verb.options => MString "OPTIONS"
  end.

Definition sugar (v : Verb.verb) (pattern : pattern_arg) (app : App) : M unit :=
  route pattern app (methodVerbs v).

(** A configuration: the calls made on a router, in order. *)
Inductive config : Type :=
  | CRun (app : App)
  | CRoute (pattern : pattern_arg) (app : App) (methods : methods_arg)
  | CVerb (v : Verb.verb) (pattern : pattern_arg) (app : App).

Definition perform (c : config) : M unit :=
  match c with
  | CRun app => run app
  | CRoute pattern app methods => route pattern app methods
  | CVerb v pattern app => sugar v pattern app
  end.

Fixpoint configure (cs : list config) (st : state) : state :=
  match cs with
  | [] => st
  | c :: cs' => configure cs' (perform c st).2
  end.

(** The routes a configuration registers for a method, in the order of the
    calls: what the specification calls the method's bucket. A call
    contributes its route once for every listed method that upper-cases to
    the bucket's name. *)
Definition registers (c : config) : option (Route * list string) :=
  match c with
  | CRun _ => None
  | CRoute pattern app methods =>
      match compile pattern with
      | (PRegExp re, keys) => Some (new_route re app keys, methods_list methods)
      | _ => None
      end
  | CVerb v pattern app =>
      match compile pattern with
      | (PRegExp re, keys) =>
          Some (new_route re app keys, methods_list (methodVerbs v))
      | _ => None
      end
  end.

Definition copies (route : Route) (methods : list string) (name : string)
  : list Route :=
  (λ _, route) <$> filter (λ method, toUpperCase method = name) methods.

Fixpoint registered (cs : list config) (name : string) : list Route :=
  match cs with
  | [] => []
  | c :: cs' =>
      match registers c with
      | Some (route, methods) => copies route methods name
      | None => []
      end ++ registered cs' name
  end.

(** The default app a configuration leaves in place. *)
Fixpoint default_after (cs : list config) (current : App) : App :=
  match cs with
  | [] => current
  | CRun app :: cs' => default_after cs' app
  | _ :: cs' => default_after cs' current
  end.

Definition is_run (c : config) : bool :=
  match c with CRun _ => true | _ => false end.

End router.
End Router.

(** ** lib/index.js: binding an app to a node server *)

Module mach.

(** What the request listener does to [nodeResponse], to the response's
    content stream and to the request's error stream, in order. *)
Inductive effect : Type :=
  | writeHead (status : Z) (headers : gmap string value)
  | end_ (body : option string)
  | pipe (content : stream)
  | destroy
  | error_write (e : error).

Section bind.

(** [utils.statusHasContent], which lives in lib/utils.js. *)
Variable statusHasContent : Z → bool.

(** The fulfilment callback. [request] is the request as the app left it. *)
Definition on_response (request : Request.request) (response : response)
  : list effect :=
  let isHead := bool_decide (Request.method request = "HEAD") in
  let isEmpty := isHead || negb (statusHasContent (status response)) in
  let headers :=
    if isEmpty && negb isHead
    then <["Content-Length" := VNumber 0]> (headers response)
    else headers response in
  writeHead (status response) headers ::
  (if isEmpty then
     end_ None :: (if destroyable (content response) then [destroy] else [])
   else [pipe (content response)]).

(** The rejection callback. Its first step reads [error.stack], which throws
    a TypeError when the reason is [null] or [undefined]: the callback ends
    there, with nothing written, and its exception goes to the promise that
    [then] returned, which nobody holds. For every other reason [error.stack]
    is a string or [undefined], and the three calls are made. *)
Definition on_error (error : error) : list effect :=
  match error with
  | Null | Thrown VUndefined => []
  | _ =>
      [ error_write error;
        writeHead 500 {[ "Content-Type" := VString "text/plain" ]};
        end_ (Some "Internal Server Error") ]
  end.

(** The listener of the node server's [request] event, from the request
    [makeRequest] built. *)
Definition on_request (app : App) (request : Request.request) : list effect :=
  match Request.call request app with
  | (Fulfilled response, request') => on_response request' response
  | (Rejected error, _) => on_error error
  end.

End bind.

(** What the effects put on the wire. *)
Fixpoint sent_head (es : list effect) : option (Z * gmap string value) :=
  match es with
  | [] => None
  | writeHead status headers :: _ => Some (status, headers)
  | _ :: es' => sent_head es'
  end.

Fixpoint sent_body (es : list effect) : string :=
  match es with
  | [] => ""
  | end_ (Some body) :: es' => body +:+ sent_body es'
  | pipe content :: es' => data content +:+ sent_body es'
  | _ :: es' => sent_body es'
  end.

End mach.

(** ** lib/index.js: starting a server *)

Module serve.

(** JavaScript truthiness and [a || b] on the primitive values. *)
Definition truthy (v : value) : bool :=
  match v with
  | VUndefined => false
  | VString s => negb (bool_decide (s = ""))
  | VNumber n => negb (n =? 0)%Z
  end.

Definition or (a b : value) : value := if truthy a then a else b.

(** The fields of the options object that decide which server is created and
    where it listens ([quiet] and [timeout] only steer the console messages
    and the shutdown timer). An absent field is [undefined]. *)
Record options : Type := {
  host : value;
  port : value;
  socket : value;
  key : value;
  cert : value
}.

(** The object literal [{}]. *)
Definition empty : options :=
  {| host := VUndefined; port := VUndefined; socket := VUndefined;
     key := VUndefined; cert := VUndefined |}.

(** The second argument of [mach.serve]. *)
Inductive options_arg : Type :=
  | OUndefined
  | ONumber (n : Z)
  | OString (s : string)
  | OObject (o : options).

(** [mach.defaultPort]. *)
Definition defaultPort : Z := 3333.

Inductive server : Type :=
  | https_createServer (key cert : value)
  | http_createServer.

(** The call that makes the server listen: on a socket file, or on a port
    and a host. *)
Inductive listen : Type :=
  | listen_socket (socket : value)
  | listen_port (port host : value).

(** [options = options || {}]: an object is truthy, a number unless it is 0,
    a string unless it is empty. *)
Definition or_empty (arg : options_arg) : options_arg :=
  match arg with
  | OUndefined => OObject empty
  | ONumber n => if truthy (VNumber n) then arg else OObject empty
  | OString s => if truthy (VString s) then arg else OObject empty
  | OObject _ => arg
  end.

(** The two [typeof] tests that follow. *)
Definition normalize (arg : options_arg) : options :=
  match or_empty arg with
  | ONumber n =>
      {| host := VUndefined; port := VNumber n; socket := VUndefined;
         key := VUndefined; cert := VUndefined |}
  | OString s =>
      {| host := VUndefined; port := VUndefined; socket := VString s;
         key := VUndefined; cert := VUndefined |}
  | OObject o => o
  | OUndefined => empty
  end.

(** [serveApp], up to the server it creates and the [listen] call it ends
    with. *)
Definition serveApp (arg : options_arg) : server * listen :=
  let options := normalize arg in
  (if truthy (key options) && truthy (cert options)
   then https_createServer (key options) (cert options)
   else http_createServer,
   if truthy (socket options) then listen_socket (socket options)
   else listen_port (or (port options) (VNumber defaultPort)) (host options)).

End serve.

(** ** Reading the effects of a request *)

(** The effect that writes the response head, and the effects that finish
    the response. *)
Definition is_writeHead (e : mach.effect) : bool :=
  match e with mach.writeHead _ _ => true | _ => false end.


(** ** The statements of the specification that the code is compared with *)

(** Every name of the key list goes through the slot one past its ordinal:
    the array has one slot per key after the whole match, reading a name
    gives that slot, and writing a name is seen at that slot's numeric
    index. *)
Definition aliases (keys : list string) (d : routeData) : Prop :=
  length (elems d) = length keys + 1 ∧
  ∀ i name, keys !! i = Some name →
    read d name = Some (index d (i + 1)) ∧
    ∀ v, ∃ d', write d name v = Some d' ∧ index d' (i + 1) = v.

(** The response goes out without a body and with the [Content-Length] the
    app gave it. *)
Definition bodiless_with_length (response : response) (es : list mach.effect)
  : Prop :=
  mach.sent_body es = "" ∧
  ∃ code sent,
    mach.sent_head es = Some (code, sent) ∧
    sent !! "Content-Length" = headers response !! "Content-Length".

(** ** A small application, after the one of the module's documentation *)

Module example.

Definition text (status : Z) (body : string) : response :=
  {| status := status;
     headers := {[ "Content-Type" := VString "text/plain";
                   "Content-Length" := VNumber (Z.of_nat (String.length body)) ]};
     content := {| data := body; destroyable := true |} |}.

Definition home : App := λ request, (Return (text 200 "Welcome home!"), request).
Definition login : App := λ request, (Return (text 200 "Please login."), request).
Definition signin : App := λ request, (Await (Fulfilled (text 200 "Hello.")), request).

Definition user : App :=
  λ request,
    (Return (text 200
       match Request.route request with
       | Some d => match read d "user_id" with
                   | Some (VString id) => id
                   | _ => ""
                   end
       | None => ""
       end), request).

(** A "not modified" answer that still states the length of the entity. *)
Definition not_modified : response :=
  {| status := 304;
     headers := {[ "Content-Length" := VNumber 13 ]};
     content := {| data := ""; destroyable := false |} |}.

Definition unchanged : App := λ request, (Return not_modified, request).

(** The expression [/^[^]*$/], which matches every path and has no group. *)
Definition anything : RegExp := {| exec := λ path, Some [VString path] |}.

Definition GET (path : string) : request :=
  {| Request.method := "GET"; Request.pathInfo := path;
     Request.queryString := ""; Request.route := None |}.

Definition HEAD (path : string) : request :=
  {| Request.method := "HEAD"; Request.pathInfo := path;
     Request.queryString := ""; Request.route := None |}.

Definition make (cs : list Router.config) : Router.state :=
  Router.configure utils.compileRoute cs (Router.makeRouter utils.defaultApp None).

(** The route object a string pattern registers. *)
Definition compiled (template : string) (app : App) : Router.Route :=
  Router.new_route (utils.compileRoute template).1 app
                   (utils.compileRoute template).2.

(** Two overlapping routes, the less specific one first. *)
Definition overlapping : list Router.config :=
  [ Router.CVerb Router.Verb.get (PString "/users/:user_id") user;
    Router.CVerb Router.Verb.get (PString "/users/new") login;
    Router.CVerb Router.Verb.get (PString "/") home ].


(** Apps that fail without a reason: a promise rejected with nothing, and
    [throw null]. *)
Definition silent : App := λ request, (Await (Rejected (Thrown VUndefined)), request).
Definition thrower : App := λ request, (Throw Null, request).

(** Three routes for GET; the first and the second both match a path of one
    segment, and the first names its segment [length]. *)
Definition length_first : list Router.config :=
  [ Router.CVerb Router.Verb.get (PString "/:length") home;
    Router.CVerb Router.Verb.get (PString "/:id") login;
    Router.CVerb Router.Verb.get (PString "/about") user ].

(** A wildcard route, and after it a GET route for the same path. *)
Definition wildcard_first : list Router.config :=
  [ Router.CRoute (PString "/login") home Router.MUndefined;
    Router.CVerb Router.Verb.get (PString "/login") login ].

(** A template with three named segments, the first name used again for the
    third. *)
Definition repeated : list Router.config :=
  [ Router.CVerb Router.Verb.get (PString "/:a/:b/:a") home ].

Definition app : Router.state :=
  make [ Router.CVerb Router.Verb.get (PString "/") home;
         Router.CVerb Router.Verb.get (PString "/login") login;
         Router.CVerb Router.Verb.post (PString "/login") signin;
         Router.CVerb Router.Verb.get (PString "/users/:user_id") user ].

End example.

(** * Properties *)

(** ** Strings and inherited property names *)

Lemma upper_ascii_not_lower c : is_lower (upper_ascii c) = false.
Proof. by destruct c as [[] [] [] [] [] [] [] []]; vm_compute. Qed.

Lemma toUpperCase_no_lower s : has_lower (toUpperCase s) = false.
Proof.
  induction s as [|c s IH]; simpl; [done|].
  by rewrite upper_ascii_not_lower, IH.
Qed.

Lemma inherited_has_lower name : inherited name = true → has_lower name = true.
Proof.
  unfold inherited. intros Hin%bool_decide_eq_true.
  assert (Hall : Forall (λ n, has_lower n = true) object_prototype_names)
    by (repeat constructor).
  by eapply Forall_forall in Hall.
Qed.

Lemma inherited_toUpperCase name : inherited (toUpperCase name) = false.
Proof.
  destruct (inherited (toUpperCase name)) eqn:E; [|done].
  apply inherited_has_lower in E. by rewrite toUpperCase_no_lower in E.
Qed.

Lemma inherited_uppercase name : toUpperCase name = name → inherited name = false.
Proof. intros <-. apply inherited_toUpperCase. Qed.

(** ** The route table *)

Import Router.

Section table.

Context (compileRoute : string → RegExp * list string).

Lemma routesToTry_own st name :
  inherited name = false →
  routesToTry st name = inr (bucket st name ++ bucket st "ANY").
Proof.
  intros Hname. unfold routesToTry, lookup, bucket.
  destruct (routes st !! name) as [rs|]; simpl; [done|].
  by rewrite Hname.
Qed.

Lemma first_match_None rs path :
  first_match rs path = None ↔ Forall (λ r, exec (pattern r) path = None) rs.
Proof.
  induction rs as [|r rs IH]; simpl.
  - split; [constructor | done].
  - destruct (exec (pattern r) path) as [m|] eqn:E.
    + split; [done|]. intros Hall. inversion Hall; congruence.
    + rewrite IH. split; [by constructor|]. by inversion 1.
Qed.

Lemma first_match_app rs1 rs2 path :
  Forall (λ r, exec (pattern r) path = None) rs1 →
  first_match (rs1 ++ rs2) path = first_match rs2 path.
Proof.
  induction 1 as [|r rs1 Hr _ IH]; simpl; [done|]. by rewrite Hr.
Qed.

Lemma first_match_elem_of rs path r m :
  first_match rs path = Some (r, m) → r ∈ rs ∧ exec (pattern r) path = Some m.
Proof.
  induction rs as [|r' rs IH]; simpl; [done|].
  destruct (exec (pattern r') path) as [m'|] eqn:E.
  - intros [= <- <-]. split; [left | done].
  - intros [Hin Hm]%IH. split; [by right | done].
Qed.

Lemma copies_cons r m ms name :
  copies r (m :: ms) name = copies r [m] name ++ copies r ms name.
Proof.
  unfold copies. rewrite !filter_cons, filter_nil.
  by case_decide.
Qed.

Lemma add_spec r m st :
  ∃ st', add r m st = (inr (), st') ∧ defaultApp st' = defaultApp st ∧
         ∀ name, bucket st' name = bucket st name ++ copies r [m] name.
Proof.
  unfold add, lookup. rewrite inherited_toUpperCase.
  destruct (routes st !! toUpperCase m) as [rs|] eqn:E;
    (eexists; split; [done|]; split; [done|]);
    intros name; unfold bucket, copies; simpl;
    rewrite filter_cons, filter_nil;
    (case_decide as Hname;
      [subst name; rewrite lookup_insert_eq, E; done
      |rewrite lookup_insert_ne by done; simpl; by rewrite app_nil_r]).
Qed.

Lemma forEach_add_spec r ms st :
  ∃ st', forEach (add r) ms st = (inr (), st') ∧ defaultApp st' = defaultApp st ∧
         ∀ name, bucket st' name = bucket st name ++ copies r ms name.
Proof.
  revert st. induction ms as [|m ms IH]; intros st; simpl.
  - exists st. split; [done|]. split; [done|]. intros name.
    unfold copies. by rewrite filter_nil, app_nil_r.
  - destruct (add_spec r m st) as (st1 & Hadd & Hd1 & Hb1).
    destruct (IH st1) as (st2 & Heach & Hd2 & Hb2).
    exists st2. unfold mbind, M_bind. rewrite Hadd. split; [done|].
    split; [congruence|]. intros name.
    by rewrite Hb2, Hb1, (copies_cons r m ms), (assoc_L (++)).
Qed.

Lemma compile_cases p :
  (∃ re keys, compile compileRoute p = (PRegExp re, keys)) ∨
  (compile compileRoute p = (p, []) ∧ utils.isRegExp p = false).
Proof.
  destruct p; simpl; eauto.
  destruct (compileRoute s) as [re keys]. eauto.
Qed.

Lemma route_registers p a ms st re keys :
  compile compileRoute p = (PRegExp re, keys) →
  ∃ st', route compileRoute p a ms st = (inr (), st') ∧
         defaultApp st' = defaultApp st ∧
         ∀ name, bucket st' name =
                 bucket st name
                 ++ copies (new_route re a keys) (methods_list ms) name.
Proof.
  intros Hp. unfold route. rewrite Hp. simpl. apply forEach_add_spec.
Qed.

Lemma route_refuses p a ms st :
  compile compileRoute p = (p, []) → utils.isRegExp p = false →
  route compileRoute p a ms st = (inl (Error "Pattern must be a RegExp"), st).
Proof. intros Hp Hre. unfold route. by rewrite Hp, Hre. Qed.

Lemma perform_spec c st :
  defaultApp (perform compileRoute c st).2
    = match c with CRun a => a | _ => defaultApp st end ∧
  ∀ name, bucket (perform compileRoute c st).2 name =
          bucket st name
          ++ match registers compileRoute c with
             | Some (r, ms) => copies r ms name
             | None => []
             end.
Proof.
  destruct c as [a|p a ms|v p a]; simpl.
  - split; [done|]. intros name. by rewrite app_nil_r.
  - destruct (compile_cases p) as [(re & keys & Hp)|[Hp Hre]].
    + destruct (route_registers p a ms st re keys Hp) as (st' & -> & Hd & Hb).
      rewrite Hp. by split.
    + rewrite (route_refuses p a ms st Hp Hre), Hp. simpl.
      split; [done|]. intros name. destruct p; by rewrite ?app_nil_r.
  - unfold sugar.
    destruct (compile_cases p) as [(re & keys & Hp)|[Hp Hre]].
    + destruct (route_registers p a (methodVerbs v) st re keys Hp)
        as (st' & -> & Hd & Hb).
      rewrite Hp. by split.
    + rewrite (route_refuses p a (methodVerbs v) st Hp Hre), Hp. simpl.
      split; [done|]. intros name. destruct p; by rewrite ?app_nil_r.
Qed.

Lemma configure_bucket cs st name :
  bucket (configure compileRoute cs st) name
    = bucket st name ++ registered compileRoute cs name.
Proof.
  revert st. induction cs as [|c cs IH]; intros st; simpl.
  - by rewrite app_nil_r.
  - rewrite IH. destruct (perform_spec c st) as [_ ->].
    by rewrite (assoc_L (++)).
Qed.

Lemma configure_defaultApp cs st :
  defaultApp (configure compileRoute cs st) = default_after cs (defaultApp st).
Proof.
  revert st. induction cs as [|c cs IH]; intros st; simpl; [done|].
  rewrite IH. destruct (perform_spec c st) as [-> _]. by destruct c.
Qed.

Lemma default_after_no_run cs (a : App) :
  Forall (λ c, is_run c = false) cs → default_after cs a = a.
Proof.
  induction 1 as [|c cs Hc _ IH]; simpl; [done|]. by destruct c.
Qed.

End table.

(** ** Dispatch *)

Section dispatch.

Context (compileRoute : string → RegExp * list string) (utils_defaultApp : App).

Lemma makeRouter_bucket d name : bucket (makeRouter utils_defaultApp d) name = [].
Proof. done. Qed.

Lemma dispatch_match st req rs r m :
  routesToTry st (Request.method req) = inr rs →
  first_match rs (Request.pathInfo req) = Some (r, m) →
  dispatch st req =
    match defineProperties (utils.slice m 0) (accessors r) with
    | inl e => inl e
    | inr data => inr (app r, Request.set_route req data)
    end.
Proof. intros Hrs Hm. unfold dispatch. by rewrite Hrs, Hm. Qed.

Lemma dispatch_miss st req rs :
  routesToTry st (Request.method req) = inr rs →
  first_match rs (Request.pathInfo req) = None →
  dispatch st req = inr (defaultApp st, req).
Proof. intros Hrs Hm. unfold dispatch. by rewrite Hrs, Hm. Qed.

Lemma dispatch_attaches st req rs r m :
  routesToTry st (Request.method req) = inr rs →
  first_match rs (Request.pathInfo req) = Some (r, m) →
  accessors r !! "length" = None →
  dispatch st req
    = inr (app r,
           {| Request.method := Request.method req;
              Request.pathInfo := Request.pathInfo req;
              Request.queryString := Request.queryString req;
              Request.route := Some {| elems := m; props := accessors r |} |}).
Proof.
  intros Hrs Hsel Hlen. rewrite (dispatch_match _ _ _ _ _ Hrs Hsel).
  unfold defineProperties. by rewrite Hlen.
Qed.

Lemma router_delegates st req a req1 :
  dispatch st req = inr (a, req1) →
  router st req = (Await (Request.call req1 a).1, (Request.call req1 a).2).
Proof.
  intros Hd. unfold router, return_call. rewrite Hd.
  by destruct (Request.call req1 a).
Qed.

Lemma dispatch_error st req e : dispatch st req = inl e → e = TypeError.
Proof.
  unfold dispatch, routesToTry, defineProperties.
  destruct (lookup _ _); try by intros [= <-].
  - destruct (first_match _ _) as [[r m]|]; [|done].
    destruct (accessors r !! "length"); [by intros [= <-] | done].
  - destruct (first_match _ _) as [[r m]|]; [|done].
    destruct (accessors r !! "length"); [by intros [= <-] | done].
Qed.

Lemma configured_routesToTry d cs name :
  toUpperCase name = name →
  routesToTry (configure compileRoute cs (makeRouter utils_defaultApp d)) name
    = inr (registered compileRoute cs name ++ registered compileRoute cs "ANY").
Proof.
  intros Hname. rewrite routesToTry_own by by apply inherited_uppercase.
  by rewrite !configure_bucket, !makeRouter_bucket.
Qed.

(** X12: the routes tried for a request are those registered for its method,
    in the order of their registration, followed by those registered for any
    method, in the order of theirs; when the first of them whose pattern
    matches the path has no accessor named [length], the router attaches the
    match to the request and calls that route's app with it, whatever later
    routes match as well. *)
Theorem dispatch_first_match d cs req pre r post m :
  toUpperCase (Request.method req) = Request.method req →
  registered compileRoute cs (Request.method req)
    ++ registered compileRoute cs "ANY" = pre ++ r :: post →
  Forall (λ r', exec (pattern r') (Request.pathInfo req) = None) pre →
  exec (pattern r) (Request.pathInfo req) = Some m →
  accessors r !! "length" = None →
  routesToTry (configure compileRoute cs (makeRouter utils_defaultApp d))
              (Request.method req) = inr (pre ++ r :: post) ∧
  dispatch (configure compileRoute cs (makeRouter utils_defaultApp d)) req
    = inr (app r,
           {| Request.method := Request.method req;
              Request.pathInfo := Request.pathInfo req;
              Request.queryString := Request.queryString req;
              Request.route := Some {| elems := m; props := accessors r |} |}) ∧
  router (configure compileRoute cs (makeRouter utils_defaultApp d)) req
    = (Await
         (Request.call
            {| Request.method := Request.method req;
               Request.pathInfo := Request.pathInfo req;
               Request.queryString := Request.queryString req;
               Request.route := Some {| elems := m; props := accessors r |} |}
            (app r)).1,
       (Request.call
          {| Request.method := Request.method req;
             Request.pathInfo := Request.pathInfo req;
             Request.queryString := Request.queryString req;
             Request.route := Some {| elems := m; props := accessors r |} |}
          (app r)).2).
Proof.
  intros Hmethod Hsplit Hpre Hr Hlen.
  pose proof (configured_routesToTry d cs _ Hmethod) as Htry.
  rewrite Hsplit in Htry. split; [done|].
  assert (first_match (pre ++ r :: post) (Request.pathInfo req) = Some (r, m))
    as Hsel.
  { rewrite first_match_app by done. simpl. by rewrite Hr. }
  pose proof (dispatch_attaches _ _ _ _ _ Htry Hsel Hlen) as Hd.
  split; [done|]. by apply router_delegates.
Qed.

(** C4: when no registered route matches, the router calls the default app:
    the one the last [run] set, else the one given to [makeRouter], else
    [utils.defaultApp]; with no [run] and no constructor argument it is
    [utils.defaultApp], and the request gets that app's response. *)
Theorem dispatch_default d cs req :
  toUpperCase (Request.method req) = Request.method req →
  Forall (λ r, exec (pattern r) (Request.pathInfo req) = None)
         (registered compileRoute cs (Request.method req)
          ++ registered compileRoute cs "ANY") →
  router (configure compileRoute cs (makeRouter utils_defaultApp d)) req
    = return_call req (default_after cs (default utils_defaultApp d)) ∧
  (d = None → Forall (λ c, is_run c = false) cs →
   router (configure compileRoute cs (makeRouter utils_defaultApp d)) req
     = (Await (Request.call req utils_defaultApp).1,
        (Request.call req utils_defaultApp).2)).
Proof.
  intros Hmethod Hmiss.
  assert (router (configure compileRoute cs (makeRouter utils_defaultApp d)) req
          = return_call req (default_after cs (default utils_defaultApp d)))
    as Hrun.
  { unfold router. erewrite dispatch_miss;
      [ | by apply configured_routesToTry | by apply first_match_None].
    by rewrite configure_defaultApp. }
  split; [done|]. intros -> Hcs. rewrite Hrun.
  rewrite default_after_no_run by done. simpl.
  unfold return_call. by destruct (Request.call req utils_defaultApp).
Qed.

(** C10: the router assigns [request.route] only when a route matched: when
    no tried route matches the path, the default app receives the request as
    it came, its [route] field included. *)
Theorem route_assigned_only_on_match st req rs a req' :
  routesToTry st (Request.method req) = inr rs →
  dispatch st req = inr (a, req') →
  (Forall (λ r, exec (pattern r) (Request.pathInfo req) = None) rs →
   a = defaultApp st ∧ req' = req ∧ Request.route req' = Request.route req) ∧
  (Request.route req' ≠ Request.route req →
   ∃ r m, first_match rs (Request.pathInfo req) = Some (r, m)).
Proof.
  intros Hrs Hd. split.
  - intros Hmiss%first_match_None.
    rewrite (dispatch_miss _ _ _ Hrs Hmiss) in Hd. by injection Hd as <- <-.
  - intros Hne. destruct (first_match rs (Request.pathInfo req)) as [[r m]|] eqn:E;
      [eauto|].
    rewrite (dispatch_miss _ _ _ Hrs E) in Hd. by injection Hd as <- <-.
Qed.

(** C7: a GET request never selects a route that sits in the POST bucket
    only: the route the loop stops at is in the GET bucket or in the wildcard
    bucket. *)
Theorem get_never_selects_post_only st req rs r m :
  Request.method req = "GET" →
  r ∈ bucket st "POST" → r ∉ bucket st "GET" → r ∉ bucket st "ANY" →
  routesToTry st (Request.method req) = inr rs →
  first_match rs (Request.pathInfo req) ≠ Some (r, m).
Proof.
  intros Hget _ Hnget Hnany Hrs Hsel.
  rewrite Hget, routesToTry_own in Hrs by done. injection Hrs as <-.
  apply first_match_elem_of in Hsel as [Hin _].
  apply elem_of_app in Hin as [?|?]; contradiction.
Qed.

Lemma router_result st req :
  (router st req).1 = Throw TypeError ∨ ∃ p, (router st req).1 = Await p.
Proof.
  unfold router. destruct (dispatch st req) as [e|[a req']] eqn:E.
  - left. by rewrite (dispatch_error _ _ _ E).
  - right. unfold return_call. destruct (Request.call req' a) as [p req2]. eauto.
Qed.

(** C5: a pattern that is neither a string nor a RegExp makes [router.route],
    and every verb method, throw at once and register nothing; the router
    itself never throws that error while it serves a request. *)
Theorem route_refuses_non_pattern p a ms st :
  (∀ s, p ≠ PString s) → utils.isRegExp p = false →
  route compileRoute p a ms st = (inl (Error "Pattern must be a RegExp"), st) ∧
  (∀ v, sugar compileRoute v p a st
        = (inl (Error "Pattern must be a RegExp"), st)) ∧
  (∀ st' req, (router st' req).1 ≠ Throw (Error "Pattern must be a RegExp")).
Proof.
  intros Hstr Hre.
  assert (compile compileRoute p = (p, [])) as Hp.
  { destruct p; try done. by destruct (Hstr s). }
  split; [by apply route_refuses|]. split.
  - intros v. by apply route_refuses.
  - intros st' req Hthrow.
    destruct (router_result st' req) as [H|[q H]]; congruence.
Qed.

(** C9: a pattern given as a RegExp is stored in the route as it is, without
    being compiled and with no key recorded: the route has no accessor, and
    when it is the route that matches, [request.route] is the bare array of
    captures, on which no name reads. *)
Theorem regexp_pattern_unchanged re a ms st req rs m :
  routesToTry (route compileRoute (PRegExp re) a ms st).2 (Request.method req)
    = inr rs →
  first_match rs (Request.pathInfo req)
    = Some ({| pattern := re; app := a; accessors := ∅ |}, m) →
  compile compileRoute (PRegExp re) = (PRegExp re, []) ∧
  new_route re a [] = {| pattern := re; app := a; accessors := ∅ |} ∧
  (route compileRoute (PRegExp re) a ms st).1 = inr () ∧
  (∀ name, bucket (route compileRoute (PRegExp re) a ms st).2 name =
           bucket st name
           ++ copies {| pattern := re; app := a; accessors := ∅ |}
                     (methods_list ms) name) ∧
  dispatch (route compileRoute (PRegExp re) a ms st).2 req
    = inr (a,
           {| Request.method := Request.method req;
              Request.pathInfo := Request.pathInfo req;
              Request.queryString := Request.queryString req;
              Request.route := Some {| elems := m; props := ∅ |} |}) ∧
  ∀ name, read {| elems := m; props := ∅ |} name = None.
Proof.
  intros Hrs Hsel. split; [done|]. split; [done|].
  destruct (route_registers compileRoute (PRegExp re) a ms st re [] eq_refl)
    as (st' & Hroute & _ & Hb).
  rewrite Hroute in *. simpl in *. split; [done|]. split; [done|]. split.
  - by rewrite (dispatch_attaches _ _ _ _ _ Hrs Hsel).
  - intros name. unfold read. simpl. by rewrite lookup_empty.
Qed.

End dispatch.

(** ** Named segments *)

Lemma array_get_set_eq a k v : array_get (array_set a k v) k = v.
Proof.
  unfold array_get, array_set. case_decide as Hk.
  - by rewrite list_lookup_insert_eq.
  - rewrite lookup_app_r by lia. rewrite lookup_app_r by (rewrite length_replicate; lia).
    rewrite length_replicate. by replace (k - length a - (k - length a)) with 0 by lia.
Qed.

Lemma array_get_set_ne a k j v :
  j ≠ k → array_get (array_set a k v) j = array_get a j.
Proof.
  intros Hj. unfold array_get, array_set. case_decide as Hk.
  - by rewrite list_lookup_insert_ne.
  - destruct (decide (j < length a)) as [Hlt|Hge].
    + by rewrite lookup_app_l.
    + rewrite (lookup_ge_None_2 a j) by lia. rewrite lookup_app_r by lia.
      destruct (decide (j < k)) as [Hjk|Hjk].
      * rewrite lookup_app_l by (rewrite length_replicate; lia).
        by rewrite lookup_replicate_2 by lia.
      * rewrite lookup_ge_None_2; [done|].
        rewrite length_app, length_replicate. simpl. lia.
Qed.

Lemma array_set_length a k v :
  k < length a → length (array_set a k v) = length a.
Proof. intros Hk. unfold array_set. rewrite decide_True by done. apply length_insert. Qed.

Lemma reduce_install_other keys i0 memo name :
  name ∉ keys → reduce install keys i0 memo !! name = memo !! name.
Proof.
  revert i0 memo. induction keys as [|k keys IH]; intros i0 memo Hname; simpl; [done|].
  apply not_elem_of_cons in Hname as [Hk Hkeys].
  rewrite IH by done. unfold install, assign.
  case_decide; [done|]. by rewrite lookup_insert_ne.
Qed.

Lemma reduce_install_last keys i0 memo i name :
  keys !! i = Some name → name ≠ "__proto__" →
  (∀ j, i < j → keys !! j ≠ Some name) →
  reduce install keys i0 memo !! name = Some (makeAccessorsForIndex (i0 + i)).
Proof.
  revert i0 memo i. induction keys as [|k keys IH]; intros i0 memo i Hi Hproto Hlast;
    [done|].
  destruct i as [|i]; simpl in *.
  - injection Hi as ->. rewrite reduce_install_other.
    + unfold install, assign. rewrite decide_False by done.
      by rewrite lookup_insert_eq, Nat.add_0_r.
    + intros (j & Hj)%list_elem_of_lookup. by apply (Hlast (S j)); [lia|].
  - rewrite (IH (S i0) _ i Hi Hproto).
    + by replace (S i0 + i) with (i0 + S i) by lia.
    + intros j Hj. apply (Hlast (S j)). lia.
Qed.

Lemma new_route_accessors re a keys :
  accessors (new_route re a keys) = reduce install keys 0 ∅.
Proof. done. Qed.

(** The matcher of a compiled template captures one string per name. *)
Lemma match_segments_length segs parts caps :
  utils.match_segments segs parts = Some caps →
  length caps = length (utils.names segs).
Proof.
  revert parts caps. induction segs as [|[s|name] segs IH]; intros parts caps.
  - destruct parts; [|done]. by intros [= <-].
  - destruct parts as [|p parts]; [done|]. simpl. case_decide; [apply IH | done].
  - destruct parts as [|p parts]; [done|]. simpl. case_decide; [done|].
    destruct (utils.match_segments segs parts) as [caps'|] eqn:E; [|done].
    intros [= <-]. simpl. f_equal. by apply IH with parts.
Qed.

Lemma compileRoute_match template re keys path m :
  utils.compileRoute template = (re, keys) → exec re path = Some m →
  length m = length keys + 1 ∧ m !! 0 = Some (VString path).
Proof.
  intros [= <- <-]. simpl.
  destruct (utils.match_segments _ _) as [caps|] eqn:E; [|done].
  intros [= <-]. simpl. split; [|done].
  rewrite (match_segments_length _ _ _ E). lia.
Qed.

(** C2, as the code has it: a match of a compiled template with [n] named
    segments sets [request.route] to an array of [n + 1] slots whose slot 0 is
    the whole match; a name other than [__proto__] aliases the slot one past the last
    ordinal at which the key list has it (its only ordinal, when the names are
    distinct): reading the name reads that slot, and writing the name changes
    that slot and no other. This holds when no segment is named [length], a
    name the array does not let a route define. *)
Theorem named_segments_alias template re keys a st req rs m :
  utils.compileRoute template = (re, keys) →
  routesToTry st (Request.method req) = inr rs →
  first_match rs (Request.pathInfo req) = Some (new_route re a keys, m) →
  "length" ∉ keys →
  dispatch st req
    = inr (a,
           {| Request.method := Request.method req;
              Request.pathInfo := Request.pathInfo req;
              Request.queryString := Request.queryString req;
              Request.route :=
                Some {| elems := m;
                        props := accessors (new_route re a keys) |} |}) ∧
  length m = length keys + 1 ∧
  m !! 0 = Some (VString (Request.pathInfo req)) ∧
  ∀ i name,
    keys !! i = Some name → name ≠ "__proto__" →
    (∀ j, i < j → keys !! j ≠ Some name) →
    read {| elems := m; props := accessors (new_route re a keys) |} name
      = Some (array_get m (i + 1)) ∧
    ∀ v, ∃ m',
      write {| elems := m; props := accessors (new_route re a keys) |} name v
        = Some {| elems := m'; props := accessors (new_route re a keys) |} ∧
      length m' = length m ∧
      array_get m' (i + 1) = v ∧
      (∀ k, k ≠ i + 1 → array_get m' k = array_get m k) ∧
      read {| elems := m'; props := accessors (new_route re a keys) |} name
        = Some v.
Proof.
  intros Hc Hrs Hsel Hlen.
  destruct (first_match_elem_of _ _ _ _ Hsel) as [_ Hexec]. simpl in Hexec.
  destruct (compileRoute_match _ _ _ _ _ Hc Hexec) as [Hm H0].
  split; [|split; [done|split; [done|]]].
  - apply (dispatch_attaches _ _ _ _ _ Hrs Hsel).
    by rewrite new_route_accessors, reduce_install_other, lookup_empty.
  - intros i name Hi Hproto Hlast.
    pose proof (reduce_install_last keys 0 ∅ i name Hi Hproto Hlast) as Hacc.
    unfold read, write. simpl. rewrite Hacc. simpl. split; [done|].
    intros v. exists (array_set m (i + 1) v). split; [done|].
    apply lookup_lt_Some in Hi.
    split; [apply array_set_length; lia|].
    split; [apply array_get_set_eq|].
    split; [intros k Hk; by apply array_get_set_ne|].
    by rewrite array_get_set_eq.
Qed.

(** ** The node server binding *)

Section server.

Context (compileRoute : string → RegExp * list string)
        (statusHasContent : Z → bool).

Lemma on_response_head req resp :
  Request.method req = "HEAD" →
  mach.on_response statusHasContent req resp
    = mach.writeHead (status resp) (headers resp)
      :: mach.end_ None
      :: (if destroyable (content resp) then [mach.destroy] else []).
Proof.
  intros Hhead. unfold mach.on_response.
  by rewrite (bool_decide_eq_true_2 _ Hhead).
Qed.

Lemma sent_body_end (es : bool) :
  mach.sent_body (mach.end_ None :: (if es then [mach.destroy] else [])) = "".
Proof. by destruct es. Qed.

(** C3, as the code has it: the response to a HEAD request goes out with no
    body and with the headers the app set, [Content-Length] included; the
    response to any other request whose status carries no body goes out with
    no body and with [Content-Length] set to 0. *)
Theorem empty_body_responses req resp :
  Request.method req = "HEAD" ∨ statusHasContent (status resp) = false →
  mach.sent_body (mach.on_response statusHasContent req resp) = "" ∧
  mach.sent_head (mach.on_response statusHasContent req resp)
    = Some (status resp,
            if decide (Request.method req = "HEAD") then headers resp
            else <["Content-Length" := VNumber 0]> (headers resp)).
Proof.
  intros Hempty. case_decide as Hhead.
  - rewrite on_response_head by done. simpl. split; [apply sent_body_end | done].
  - destruct Hempty as [?|Hstatus]; [done|].
    unfold mach.on_response.
    rewrite (bool_decide_eq_false_2 _ Hhead), Hstatus. simpl.
    split; [apply sent_body_end | done].
Qed.



Lemma nullish_failure st req a req1 e :
  dispatch st req = inr (a, req1) →
  (a req1).1 = Throw e ∨ (a req1).1 = Await (Rejected e) →
  e = Null ∨ e = Thrown VUndefined →
  mach.on_request statusHasContent (router st) req = [].
Proof.
  intros Hd Hfail Hnullish.
  unfold mach.on_request, Request.call at 1.
  rewrite (router_delegates _ _ _ _ Hd). unfold Request.call.
  destruct (a req1) as [res req2]. simpl in *.
  by destruct Hfail as [-> | ->]; destruct Hnullish as [-> | ->].
Qed.

End server.

(** A template that names two segments alike: the name at ordinal 0 reads
    the slot of ordinal 1, so the statement about every name fails. *)
Lemma repeated_name_aliases_last :
  (utils.compileRoute "/:a/:a").2 = ["a"; "a"] ∧
  dispatch (example.make [CVerb Verb.get (PString "/:a/:a") example.home])
           (example.GET "/x/y")
    = inr (example.home,
           Request.set_route (example.GET "/x/y")
             {| elems := [VString "/x/y"; VString "x"; VString "y"];
                props := reduce install ["a"; "a"] 0 ∅ |}) ∧
  ¬ aliases ["a"; "a"]
      {| elems := [VString "/x/y"; VString "x"; VString "y"];
         props := reduce install ["a"; "a"] 0 ∅ |}.
Proof.
  split; [reflexivity|]. split; [reflexivity|].
  intros [_ Halias]. destruct (Halias 0 "a" eq_refl) as [Hread _].
  vm_compute in Hread. discriminate Hread.
Qed.

(** A GET request answered with status 304 and the length of the entity:
    the body stays away, but the length that goes out is 0, not the one the
    app stated. *)
Lemma not_modified_length_replaced :
  mach.on_request utils.statusHasContent example.unchanged (example.GET "/")
    = [ mach.writeHead 304 {[ "Content-Length" := VNumber 0 ]};
        mach.end_ None ] ∧
  ¬ bodiless_with_length example.not_modified
      (mach.on_request utils.statusHasContent example.unchanged
         (example.GET "/")).
Proof.
  assert (mach.on_request utils.statusHasContent example.unchanged
            (example.GET "/")
          = [ mach.writeHead 304 {[ "Content-Length" := VNumber 0 ]};
              mach.end_ None ]) as Htrace by reflexivity.
  split; [exact Htrace|]. rewrite Htrace.
  intros (_ & code & sent & Hhead & Hlen).
  simpl in Hhead. injection Hhead as <- <-.
  rewrite lookup_singleton_eq in Hlen.
  unfold example.not_modified in Hlen. simpl in Hlen.
  rewrite lookup_singleton_eq in Hlen. discriminate Hlen.
Qed.

(** C1: a GET router with the routes [/:length], [/:id] and [/about],
    registered in that order, and the request [GET /7]. The first and the
    second route both match and the first is the one the loop stops at; the
    router then throws a TypeError where it should call the first route's
    app: [Object.defineProperties] refuses the accessor named [length] on the
    match array. *)
Lemma first_route_named_length_not_served :
  routesToTry (example.make example.length_first) "GET"
    = inr [ example.compiled "/:length" example.home;
            example.compiled "/:id" example.login;
            example.compiled "/about" example.user ] ∧
  exec (pattern (example.compiled "/:length" example.home)) "/7"
    = Some [VString "/7"; VString "7"] ∧
  exec (pattern (example.compiled "/:id" example.login)) "/7"
    = Some [VString "/7"; VString "7"] ∧
  first_match [ example.compiled "/:length" example.home;
                example.compiled "/:id" example.login;
                example.compiled "/about" example.user ] "/7"
    = Some (example.compiled "/:length" example.home,
            [VString "/7"; VString "7"]) ∧
  router (example.make example.length_first) (example.GET "/7")
    = (Throw TypeError, example.GET "/7") ∧
  mach.on_request utils.statusHasContent
    (router (example.make example.length_first)) (example.GET "/7")
    = [ mach.error_write TypeError;
        mach.writeHead 500 {[ "Content-Type" := VString "text/plain" ]};
        mach.end_ (Some "Internal Server Error") ].
Proof. repeat split; reflexivity. Qed.


(** C8: an app whose promise rejects without a reason, and an app that throws
    [null]. The router's promise rejects, and the rejection callback throws
    at [error.stack] before it writes anything: no head, no status 500, and
    the response is never ended. *)
Lemma failure_without_reason_unanswered :
  (Request.call (example.GET "/")
     (router (example.make [CVerb Verb.get (PString "/") example.silent]))).1
    = Rejected (Thrown VUndefined) ∧
  mach.on_request utils.statusHasContent
    (router (example.make [CVerb Verb.get (PString "/") example.silent]))
    (example.GET "/") = [] ∧
  (Request.call (example.GET "/")
     (router (example.make [CVerb Verb.get (PString "/") example.thrower]))).1
    = Rejected Null ∧
  mach.on_request utils.statusHasContent
    (router (example.make [CVerb Verb.get (PString "/") example.thrower]))
    (example.GET "/") = [] ∧
  mach.sent_head [] = None.
Proof. repeat split; reflexivity. Qed.

(** ** The theorems at work on the example application *)

Lemma dispatch_first_match_overlapping :
  router (example.make example.overlapping) (example.GET "/users/new")
    = (Await (Fulfilled (example.text 200 "new")),
       {| Request.method := "GET"; Request.pathInfo := "/users/new";
          Request.queryString := "";
          Request.route :=
            Some {| elems := [VString "/users/new"; VString "new"];
                    props := reduce install ["user_id"] 0 ∅ |} |}).
Proof.
  refine (proj2 (proj2
            (dispatch_first_match utils.compileRoute utils.defaultApp None
               example.overlapping (example.GET "/users/new") []
               (example.compiled "/users/:user_id" example.user)
               [example.compiled "/users/new" example.login;
                example.compiled "/" example.home]
               [VString "/users/new"; VString "new"] _ _ _ _ _))).
  - reflexivity.
  - reflexivity.
  - constructor.
  - reflexivity.
  - reflexivity.
Defined.

Lemma dispatch_default_miss :
  router (example.make example.overlapping) (example.GET "/about")
    = return_call (example.GET "/about") utils.defaultApp.
Proof.
  refine (proj1 (dispatch_default utils.compileRoute utils.defaultApp None
                   example.overlapping (example.GET "/about") _ _)).
  - reflexivity.
  - repeat constructor.
Defined.

Lemma route_assigned_only_on_match_miss :
  dispatch example.app (example.GET "/about")
    = inr (utils.defaultApp, example.GET "/about") ∧
  utils.defaultApp = defaultApp example.app ∧
  example.GET "/about" = example.GET "/about" ∧
  Request.route (example.GET "/about") = Request.route (example.GET "/about").
Proof.
  split; [reflexivity|].
  refine (proj1 (route_assigned_only_on_match example.app (example.GET "/about")
                   (bucket example.app "GET" ++ bucket example.app "ANY")
                   utils.defaultApp (example.GET "/about") _ _) _).
  - reflexivity.
  - reflexivity.
  - repeat constructor.
Defined.

Lemma route_refuses_non_pattern_number :
  route utils.compileRoute (PNumber 42) example.home MUndefined example.app
    = (inl (Error "Pattern must be a RegExp"), example.app).
Proof.
  refine (proj1 (route_refuses_non_pattern utils.compileRoute (PNumber 42)
                   example.home MUndefined example.app _ _)).
  - discriminate.
  - reflexivity.
Defined.

Lemma get_never_selects_post_only_login :
  first_match (bucket example.app "GET" ++ bucket example.app "ANY") "/login"
    ≠ Some (example.compiled "/login" example.signin, [VString "/login"]).
Proof.
  refine (get_never_selects_post_only example.app (example.GET "/login")
            (bucket example.app "GET" ++ bucket example.app "ANY")
            (example.compiled "/login" example.signin) [VString "/login"]
            _ _ _ _ _).
  - reflexivity.
  - apply list_elem_of_here.
  - intros Hin.
    change (bucket example.app "GET")
      with [ example.compiled "/" example.home;
             example.compiled "/login" example.login;
             example.compiled "/users/:user_id" example.user ] in Hin.
    repeat (apply elem_of_cons in Hin as [Hin|Hin];
            [apply (f_equal (λ r, (app r (example.GET "")).1)) in Hin;
             discriminate Hin|]).
    by apply elem_of_nil in Hin.
  - intros Hin. by apply elem_of_nil in Hin.
  - reflexivity.
Defined.

Lemma named_segments_alias_repeated :
  dispatch (example.make example.repeated) (example.GET "/x/y/z")
    = inr (example.home,
           {| Request.method := "GET"; Request.pathInfo := "/x/y/z";
              Request.queryString := "";
              Request.route :=
                Some {| elems := [VString "/x/y/z"; VString "x"; VString "y";
                                  VString "z"];
                        props := reduce install ["a"; "b"; "a"] 0 ∅ |} |}) ∧
  read {| elems := [VString "/x/y/z"; VString "x"; VString "y"; VString "z"];
          props := reduce install ["a"; "b"; "a"] 0 ∅ |} "b"
    = Some (VString "y") ∧
  read {| elems := [VString "/x/y/z"; VString "x"; VString "y"; VString "z"];
          props := reduce install ["a"; "b"; "a"] 0 ∅ |} "a"
    = Some (VString "z") ∧
  ∃ m',
    write {| elems := [VString "/x/y/z"; VString "x"; VString "y"; VString "z"];
             props := reduce install ["a"; "b"; "a"] 0 ∅ |} "a" (VNumber 7)
      = Some {| elems := m'; props := reduce install ["a"; "b"; "a"] 0 ∅ |} ∧
    length m' = 4 ∧
    array_get m' 3 = VNumber 7 ∧
    array_get m' 1 = VString "x" ∧
    read {| elems := m'; props := reduce install ["a"; "b"; "a"] 0 ∅ |} "a"
      = Some (VNumber 7).
Proof.
  destruct (named_segments_alias "/:a/:b/:a"
              (utils.compileRoute "/:a/:b/:a").1 ["a"; "b"; "a"]
              example.home (example.make example.repeated)
              (example.GET "/x/y/z")
              [example.compiled "/:a/:b/:a" example.home]
              [VString "/x/y/z"; VString "x"; VString "y"; VString "z"]
              eq_refl eq_refl eq_refl)
    as (Hdispatch & _ & _ & Hnames).
  { compute_done. }
  split; [exact Hdispatch|].
  destruct (Hnames 1 "b" eq_refl) as [Hb _].
  { discriminate. }
  { intros [|[|[|j]]] Hj; try lia; discriminate. }
  split; [exact Hb|].
  destruct (Hnames 2 "a" eq_refl) as [Ha Hwrite].
  { discriminate. }
  { intros [|[|[|j]]] Hj; try lia; discriminate. }
  split; [exact Ha|].
  destruct (Hwrite (VNumber 7)) as (m' & Hw & Hlen & Hslot & Hothers & Hread).
  exists m'. split; [exact Hw|]. split; [exact Hlen|]. split; [exact Hslot|].
  split; [exact (Hothers 1 ltac:(lia)) | exact Hread].
Defined.

Lemma empty_body_responses_head :
  mach.sent_body
    (mach.on_response utils.statusHasContent (example.HEAD "/")
       (example.text 200 "Welcome home!")) = "" ∧
  mach.sent_head
    (mach.on_response utils.statusHasContent (example.HEAD "/")
       (example.text 200 "Welcome home!"))
    = Some (200%Z, headers (example.text 200 "Welcome home!")).
Proof.
  refine (empty_body_responses utils.statusHasContent (example.HEAD "/")
            (example.text 200 "Welcome home!") _).
  left. reflexivity.
Defined.



Lemma regexp_pattern_unchanged_anything :
  (route utils.compileRoute (PRegExp example.anything) example.home
         (MString "get") (makeRouter utils.defaultApp None)).1 = inr () ∧
  bucket (route utils.compileRoute (PRegExp example.anything) example.home
                (MString "get") (makeRouter utils.defaultApp None)).2 "GET"
    = [ {| pattern := example.anything; app := example.home;
           accessors := ∅ |} ] ∧
  dispatch (route utils.compileRoute (PRegExp example.anything) example.home
                  (MString "get") (makeRouter utils.defaultApp None)).2
           (example.GET "/any/path")
    = inr (example.home,
           {| Request.method := "GET"; Request.pathInfo := "/any/path";
              Request.queryString := "";
              Request.route :=
                Some {| elems := [VString "/any/path"]; props := ∅ |} |}) ∧
  read {| elems := [VString "/any/path"]; props := ∅ |} "path" = None.
Proof.
  destruct (regexp_pattern_unchanged utils.compileRoute example.anything
              example.home (MString "get") (makeRouter utils.defaultApp None)
              (example.GET "/any/path")
              [ {| pattern := example.anything; app := example.home;
                   accessors := ∅ |} ]
              [VString "/any/path"] eq_refl eq_refl)
    as (_ & _ & Hok & Hbucket & Hdispatch & Hread).
  split; [exact Hok|]. split; [exact (Hbucket "GET")|].
  split; [exact Hdispatch | exact (Hread "path")].
Defined.

(** ** The application of the module's documentation, run *)

Example users_42_reads_id :
  (router example.app (example.GET "/users/42")).1
    = Await (Fulfilled (example.text 200 "42")).
Proof. reflexivity. Qed.

Example users_42_edit_falls_through :
  router example.app (example.GET "/users/42/edit")
    = return_call (example.GET "/users/42/edit") utils.defaultApp.
Proof. reflexivity. Qed.

Example post_login_signs_in :
  (router example.app
     {| Request.method := "POST"; Request.pathInfo := "/login";
        Request.queryString := ""; Request.route := None |}).1
    = Await (Fulfilled (example.text 200 "Hello.")).
Proof. reflexivity. Qed.

Example head_login_has_no_body :
  mach.on_request utils.statusHasContent (router example.app)
                  (example.HEAD "/login")
    = [ mach.writeHead 200 (headers (example.text 200 "Please login."));
        mach.end_ None; mach.destroy ].
Proof. reflexivity. Qed.

Example get_login_pipes_the_body :
  mach.sent_body
    (mach.on_request utils.statusHasContent (router example.app)
                     (example.GET "/login"))
    = "Please login.".
Proof. reflexivity. Qed.

Example inherited_method_throws :
  (router example.app
     {| Request.method := "constructor"; Request.pathInfo := "/";
        Request.queryString := ""; Request.route := None |}).1
    = Throw TypeError.
Proof. reflexivity. Qed.

Example length_segment_throws :
  (router (example.make [CVerb Verb.get (PString "/:length") example.home])
          (example.GET "/7")).1
    = Throw TypeError.
Proof. reflexivity. Qed.

(** * Further properties of the router *)

(** ** Registration *)

Lemma upper_ascii_idemp c : upper_ascii (upper_ascii c) = upper_ascii c.
Proof. by destruct c as [[] [] [] [] [] [] [] []]; vm_compute. Qed.

Lemma toUpperCase_idemp s : toUpperCase (toUpperCase s) = toUpperCase s.
Proof.
  induction s as [|c s IH]; simpl; [done|]. by rewrite upper_ascii_idemp, IH.
Qed.

Lemma copies_replicate r ms name :
  copies r ms name
    = replicate (length (filter (λ m, toUpperCase m = name) ms)) r.
Proof.
  unfold copies. induction (filter _ ms) as [|m l IH]; [done|].
  rewrite fmap_cons. simpl. by f_equal.
Qed.

Lemma copies_unlisted r ms name :
  name ∉ toUpperCase <$> ms → copies r ms name = [].
Proof.
  intros Hname. unfold copies. induction ms as [|m ms IH]; [done|].
  rewrite fmap_cons in Hname. apply not_elem_of_cons in Hname as [Hm Hms].
  rewrite filter_cons. case_decide; [congruence | by apply IH].
Qed.

Lemma add_same_bucket r m1 m2 st :
  toUpperCase m1 = toUpperCase m2 → add r m1 st = add r m2 st.
Proof. intros Hm. unfold add. by rewrite Hm. Qed.

Lemma forEach_add_same_buckets r ms1 ms2 st :
  toUpperCase <$> ms1 = toUpperCase <$> ms2 →
  forEach (add r) ms1 st = forEach (add r) ms2 st.
Proof.
  revert ms2 st. induction ms1 as [|m1 ms1 IH]; intros [|m2 ms2] st Hms;
    try done.
  rewrite !fmap_cons in Hms. injection Hms as Hm Hms. simpl.
  unfold mbind, M_bind. rewrite (add_same_bucket r m1 m2 st Hm).
  destruct (add r m2 st) as [[e|[]] st']; [done|]. by apply IH.
Qed.

Section registration.

Context (compileRoute : string → RegExp * list string).

Lemma configure_app cs1 cs2 st :
  configure compileRoute (cs1 ++ cs2) st
    = configure compileRoute cs2 (configure compileRoute cs1 st).
Proof.
  revert st. induction cs1 as [|c cs1 IH]; intros st; simpl; [done|]. apply IH.
Qed.

(** X1: whatever is registered or set later, the routes a bucket holds stay
    where they are, in front and in their order: no call removes or reorders
    a route. *)
Theorem registration_keeps_prefix cs1 cs2 st name :
  bucket (configure compileRoute cs1 st) name
    `prefix_of` bucket (configure compileRoute (cs1 ++ cs2) st) name.
Proof.
  rewrite configure_app, (configure_bucket compileRoute cs2).
  by apply prefix_app_r.
Qed.

(** X2: the case of the method names does not matter to [router.route]: two
    method lists that upper-case to the same list register alike, so a single
    name does what the one-element array does and [undefined] what ["any"]
    does. *)
Theorem route_method_case p a ms1 ms2 st :
  toUpperCase <$> methods_list ms1 = toUpperCase <$> methods_list ms2 →
  route compileRoute p a ms1 st = route compileRoute p a ms2 st.
Proof.
  intros Hms. unfold route. destruct (compile compileRoute p) as [q keys].
  destruct q; simpl; try done. by apply forEach_add_same_buckets.
Qed.

(** X3: [router.route] touches the buckets of the listed methods only: a
    bucket whose name no listed method upper-cases to is left as it was, and
    so is the default app. *)
Theorem route_frame p a ms st name :
  name ∉ toUpperCase <$> methods_list ms →
  bucket (route compileRoute p a ms st).2 name = bucket st name ∧
  defaultApp (route compileRoute p a ms st).2 = defaultApp st.
Proof.
  intros Hname.
  destruct (compile_cases compileRoute p) as [(re & keys & Hp)|[Hp Hre]].
  - destruct (route_registers compileRoute p a ms st re keys Hp)
      as (st' & -> & Hd & Hb).
    simpl. split; [|done]. by rewrite Hb, copies_unlisted, app_nil_r.
  - by rewrite (route_refuses compileRoute p a ms st Hp Hre).
Qed.

(** X4: a registration with a string or RegExp pattern pushes the route once
    for every listed method, repeated ones included: the bucket grows by as
    many copies of the route as listed methods upper-case to its name, after
    the routes it held. Nothing is deduplicated. *)
Theorem route_pushes_per_method p a ms st re keys name :
  compile compileRoute p = (PRegExp re, keys) →
  (route compileRoute p a ms st).1 = inr () ∧
  bucket (route compileRoute p a ms st).2 name
    = bucket st name
      ++ replicate
           (length (filter (λ m, toUpperCase m = name) (methods_list ms)))
           (new_route re a keys).
Proof.
  intros Hp.
  destruct (route_registers compileRoute p a ms st re keys Hp)
    as (st' & -> & _ & Hb).
  simpl. split; [done|]. by rewrite Hb, copies_replicate.
Qed.

(** X5: a registration that is refused leaves no trace in a configuration:
    the calls around it build the router they build without it. *)
Theorem refused_registration_skipped p a ms cs1 cs2 st :
  (∀ s, p ≠ PString s) → utils.isRegExp p = false →
  configure compileRoute (cs1 ++ CRoute p a ms :: cs2) st
    = configure compileRoute (cs1 ++ cs2) st.
Proof.
  intros Hstr Hre. rewrite !configure_app. simpl.
  rewrite route_refuses; [done| |done].
  destruct p; try done. by destruct (Hstr s).
Qed.

End registration.

(** ** The names of the buckets *)

Lemma add_upper_keys r m st :
  (∀ name, is_Some (routes st !! name) → toUpperCase name = name) →
  ∀ name, is_Some (routes (add r m st).2 !! name) → toUpperCase name = name.
Proof.
  intros Hinv name. unfold add.
  destruct (lookup (routes st) (toUpperCase m)); simpl; [|by auto|];
    (destruct (decide (toUpperCase m = name)) as [<-|Hne];
      [intros _; apply toUpperCase_idemp
      |rewrite lookup_insert_ne by done; by auto]).
Qed.

Lemma forEach_add_upper_keys r ms st :
  (∀ name, is_Some (routes st !! name) → toUpperCase name = name) →
  ∀ name, is_Some (routes (forEach (add r) ms st).2 !! name) →
          toUpperCase name = name.
Proof.
  revert st. induction ms as [|m ms IH]; intros st Hinv; simpl; [done|].
  unfold mbind, M_bind.
  pose proof (add_upper_keys r m st Hinv) as Hadd.
  destruct (add r m st) as [[e|[]] st']; simpl in *; [done|]. by apply IH.
Qed.

Section names.

Context (compileRoute : string → RegExp * list string) (utils_defaultApp : App).

Lemma perform_upper_keys c st :
  (∀ name, is_Some (routes st !! name) → toUpperCase name = name) →
  ∀ name, is_Some (routes (perform compileRoute c st).2 !! name) →
          toUpperCase name = name.
Proof.
  intros Hinv.
  assert (∀ p a ms name,
            is_Some (routes (route compileRoute p a ms st).2 !! name) →
            toUpperCase name = name) as Hroute.
  { intros p a ms. unfold route. destruct (compile compileRoute p) as [q keys].
    destruct q; simpl; try done. by apply forEach_add_upper_keys. }
  destruct c as [a|p a ms|v p a]; simpl; [done| |]; apply Hroute.
Qed.

Lemma configure_upper_keys cs st :
  (∀ name, is_Some (routes st !! name) → toUpperCase name = name) →
  ∀ name, is_Some (routes (configure compileRoute cs st) !! name) →
          toUpperCase name = name.
Proof.
  revert st. induction cs as [|c cs IH]; intros st Hinv; simpl; [done|].
  apply IH. by apply perform_upper_keys.
Qed.

Lemma makeRouter_upper_keys d name :
  is_Some (routes (makeRouter utils_defaultApp d) !! name) →
  toUpperCase name = name.
Proof. simpl. rewrite lookup_empty. by intros [rs Hrs]. Qed.

(** X6: the router keeps its buckets under upper-case names: whatever calls
    configured it, every name [routes] has a bucket for is its own
    upper-casing. *)
Theorem bucket_names_upper_case d cs name :
  is_Some (routes (configure compileRoute cs (makeRouter utils_defaultApp d))
           !! name) →
  toUpperCase name = name.
Proof. apply configure_upper_keys, makeRouter_upper_keys. Qed.

Lemma configured_inherited d cs name :
  inherited name = true →
  lookup (routes (configure compileRoute cs (makeRouter utils_defaultApp d)))
         name = Inherited.
Proof.
  intros Hname. unfold lookup.
  destruct (routes _ !! name) as [rs|] eqn:E; [|by rewrite Hname].
  assert (toUpperCase name = name) as Hup.
  { apply (configure_upper_keys cs (makeRouter utils_defaultApp d));
      [apply makeRouter_upper_keys | by rewrite E]. }
  apply inherited_uppercase in Hup. congruence.
Qed.

(** X7: a request whose method is the name of a property that objects
    inherit ([constructor], [toString], [__proto__], ...) makes every router
    throw a TypeError, however it was configured: the bucket names are
    upper-case, so [routes[method]] is the inherited value, which has no
    [concat]. The request is left as it came and no app is called. *)
Theorem inherited_method_refused d cs req :
  inherited (Request.method req) = true →
  router (configure compileRoute cs (makeRouter utils_defaultApp d)) req
    = (Throw TypeError, req).
Proof.
  intros Hname. unfold router, dispatch, routesToTry.
  by rewrite configured_inherited.
Qed.

End names.

(** ** Selection *)

Lemma first_match_app_Some rs1 rs2 path x :
  first_match rs1 path = Some x → first_match (rs1 ++ rs2) path = Some x.
Proof.
  induction rs1 as [|r rs1 IH]; simpl; [done|].
  by destruct (exec (pattern r) path).
Qed.

Lemma first_match_last rs r path m :
  Forall (λ r', exec (pattern r') path = None) rs →
  exec (pattern r) path = Some m →
  first_match (rs ++ [r]) path = Some (r, m).
Proof. intros Hrs Hr. rewrite first_match_app by done. simpl. by rewrite Hr. Qed.

Section selection.

Context (compileRoute : string → RegExp * list string).


(** X9: a route registered without methods is open to every method: a
    request of any method that is not an inherited property name is handed to
    its app, with the match attached, when the route matches the path, has no
    key named [length], and no route already tried for that method, specific
    or wildcard, matches. *)
Theorem wildcard_route_reachable p a st re keys req m :
  compile compileRoute p = (PRegExp re, keys) →
  "length" ∉ keys →
  inherited (Request.method req) = false →
  Forall (λ r, exec (pattern r) (Request.pathInfo req) = None)
         (bucket st (Request.method req) ++ bucket st "ANY") →
  exec re (Request.pathInfo req) = Some m →
  dispatch (route compileRoute p a MUndefined st).2 req
    = inr (a,
           {| Request.method := Request.method req;
              Request.pathInfo := Request.pathInfo req;
              Request.queryString := Request.queryString req;
              Request.route :=
                Some {| elems := m;
                        props := accessors (new_route re a keys) |} |}).
Proof.
  intros Hp Hlen Hname Hmiss Hm.
  destruct (route_registers compileRoute p a MUndefined st re keys Hp)
    as (st' & -> & _ & Hb).
  simpl. apply Forall_app in Hmiss as [Hmethod Hany].
  apply (dispatch_attaches st' req
           (bucket st' (Request.method req) ++ bucket st' "ANY")
           (new_route re a keys) m);
    [by apply routesToTry_own | |
     by rewrite new_route_accessors, reduce_install_other, lookup_empty].
  rewrite !Hb. simpl.
  replace (copies (new_route re a keys) ["ANY"] "ANY")
    with [new_route re a keys] by done.
  destruct (decide (Request.method req = "ANY")) as [->|Hne].
  - replace (copies (new_route re a keys) ["ANY"] "ANY")
      with [new_route re a keys] by done.
    rewrite <- (assoc_L (++)). rewrite first_match_app by done.
    simpl. by rewrite Hm.
  - rewrite copies_unlisted, app_nil_r.
    + rewrite first_match_app by done. by apply first_match_last.
    + simpl. by intros Hin%list_elem_of_singleton.
Qed.

(** X10: the routes of the request's own method come before the wildcard
    ones whatever the order of registration: when a route of the method's
    bucket matches, the first such route is selected and the wildcard bucket
    plays no part. *)
Theorem method_routes_before_wildcard st req rs r m :
  routesToTry st (Request.method req) = inr rs →
  first_match (bucket st (Request.method req)) (Request.pathInfo req)
    = Some (r, m) →
  first_match rs (Request.pathInfo req) = Some (r, m).
Proof.
  unfold routesToTry, lookup, bucket.
  destruct (routes st !! Request.method req) as [l|]; simpl.
  - intros [= <-]. apply first_match_app_Some.
  - done.
Qed.

(** X11: the router writes no field of the request but [route]: the app it
    hands the request to sees the method, the path and the query string the
    request came with. *)
Theorem dispatch_keeps_request_fields st req a req' :
  dispatch st req = inr (a, req') →
  Request.method req' = Request.method req ∧
  Request.pathInfo req' = Request.pathInfo req ∧
  Request.queryString req' = Request.queryString req.
Proof.
  unfold dispatch. destruct (routesToTry _ _) as [e|rs]; [done|].
  destruct (first_match _ _) as [[r m]|].
  - destruct (defineProperties _ _) as [e|d]; [done|]. by intros [= <- <-].
  - by intros [= <- <-].
Qed.

End selection.

(** ** Accessors *)

Lemma reduce_install_is_Some keys i0 memo name :
  is_Some (reduce install keys i0 memo !! name)
  ↔ (name ∈ keys ∧ name ≠ "__proto__") ∨ is_Some (memo !! name).
Proof.
  revert i0 memo. induction keys as [|k keys IH]; intros i0 memo; simpl.
  - split; [by right | intros [[Hin _]|?]; [by apply elem_of_nil in Hin | done]].
  - rewrite IH. unfold install, assign. rewrite elem_of_cons.
    case_decide as Hk.
    + subst k. split.
      * intros [[Hin Hne]|Hmemo]; [left | by right]. split; [by right | done].
      * intros [[[Heq|Hin] Hne]|Hmemo]; [congruence | by left | by right].
    + destruct (decide (k = name)) as [->|Hne].
      * rewrite lookup_insert_eq. split; [|by eauto]. intros _. left. by eauto.
      * rewrite lookup_insert_ne by done. split.
        -- intros [[Hin Hp]|Hmemo]; [left | by right]. split; [by right | done].
        -- intros [[[Heq|Hin] Hp]|Hmemo]; [congruence | by left | by right].
Qed.

(** X13: the accessors of a route are named by its keys, [__proto__] apart:
    a name has an accessor exactly when it is a key other than [__proto__],
    for which the assignment in the reduction creates no property. *)
Theorem accessor_names re a keys name :
  is_Some (accessors (new_route re a keys) !! name)
  ↔ name ∈ keys ∧ name ≠ "__proto__".
Proof.
  rewrite new_route_accessors, reduce_install_is_Some, lookup_empty.
  split; [intros [?|[x Hx]]; done | by left].
Qed.

(** X14: the setter and the getter of an index agree on every array, also
    one too short for the slot: after a write the getter returns the value
    written, the array holds [index + 2] slots at least and no fewer than
    before, and the getter of every other index returns what it did. *)
Theorem accessor_round_trip index this v :
  get (makeAccessorsForIndex index) (set (makeAccessorsForIndex index) v this)
    = v ∧
  length (set (makeAccessorsForIndex index) v this)
    = length this `max` (index + 2) ∧
  ∀ j, j ≠ index →
       get (makeAccessorsForIndex j) (set (makeAccessorsForIndex index) v this)
         = get (makeAccessorsForIndex j) this.
Proof.
  simpl. split; [apply array_get_set_eq|]. split.
  - unfold array_set. case_decide.
    + rewrite length_insert. lia.
    + rewrite !length_app, length_replicate. simpl. lia.
  - intros j Hj. apply array_get_set_ne. lia.
Qed.

(** X15: a route with a key [length] cannot be served: whenever it is the
    first route to match, the router throws a TypeError, since the array
    refuses the accessor; the request keeps the [route] it had and no app is
    called. *)
Theorem length_segment_refused re a keys st req rs m :
  "length" ∈ keys →
  routesToTry st (Request.method req) = inr rs →
  first_match rs (Request.pathInfo req) = Some (new_route re a keys, m) →
  router st req = (Throw TypeError, req).
Proof.
  intros Hkey Hrs Hsel. unfold router.
  rewrite (dispatch_match _ _ _ _ _ Hrs Hsel). unfold defineProperties.
  destruct (proj2 (reduce_install_is_Some keys 0 ∅ "length")) as [acc Hacc];
    [by left|].
  by rewrite new_route_accessors, Hacc.
Qed.

(** * Further properties of the server binding *)

Lemma append_empty s : s +:+ "" = s.
Proof.
  induction s as [|c s IH]; [done|].
  change (String c (s +:+ "") = String c s). by f_equal.
Qed.

Section listener.

Context (statusHasContent : Z → bool).

(** X16: a response that may carry a body, to a request that is not a HEAD
    request, goes out as the app made it: the status and the headers are
    written unchanged, the content is piped whole, and the stream is not
    destroyed. *)
Theorem content_response_unchanged req resp :
  Request.method req ≠ "HEAD" → statusHasContent (status resp) = true →
  mach.on_response statusHasContent req resp
    = [ mach.writeHead (status resp) (headers resp);
        mach.pipe (content resp) ] ∧
  mach.sent_body (mach.on_response statusHasContent req resp)
    = data (content resp).
Proof.
  intros Hhead Hstatus. unfold mach.on_response.
  rewrite (bool_decide_eq_false_2 _ Hhead), Hstatus. simpl.
  split; [done | apply append_empty].
Qed.

Lemma withheld_effects code hs (d : bool) c :
  (mach.destroy
     ∈ mach.writeHead code hs :: mach.end_ None
       :: (if d then [mach.destroy] else [])
   ↔ d = true) ∧
  mach.pipe c
    ∉ mach.writeHead code hs :: mach.end_ None
      :: (if d then [mach.destroy] else []).
Proof.
  destruct d; (split; [split|]).
  - done.
  - intros _. do 2 right. left.
  - intros [?|[?|[?|Hin]%elem_of_cons]%elem_of_cons]%elem_of_cons; try done.
    by apply elem_of_nil in Hin.
  - intros [?|[?|Hin]%elem_of_cons]%elem_of_cons; try done.
    by apply elem_of_nil in Hin.
  - done.
  - intros [?|[?|Hin]%elem_of_cons]%elem_of_cons; try done.
    by apply elem_of_nil in Hin.
Qed.

(** X17: the content stream is destroyed exactly when the body is withheld
    (a HEAD request, or a status without content) and the stream has a
    [destroy] method, and it is piped exactly when the body is not withheld:
    never both. *)
Theorem content_destroyed_or_piped req resp :
  (mach.destroy ∈ mach.on_response statusHasContent req resp
   ↔ (Request.method req = "HEAD" ∨ statusHasContent (status resp) = false)
     ∧ destroyable (content resp) = true) ∧
  (mach.pipe (content resp) ∈ mach.on_response statusHasContent req resp
   ↔ Request.method req ≠ "HEAD" ∧ statusHasContent (status resp) = true).
Proof.
  unfold mach.on_response.
  destruct (decide (Request.method req = "HEAD")) as [Hhead|Hhead].
  - rewrite (bool_decide_eq_true_2 _ Hhead). simpl.
    destruct (withheld_effects (status resp) (headers resp)
                (destroyable (content resp)) (content resp)) as [Hd Hp].
    split; [rewrite Hd; tauto | split; [done | tauto]].
  - rewrite (bool_decide_eq_false_2 _ Hhead). simpl.
    destruct (statusHasContent (status resp)) eqn:Hstatus; simpl.
    + split; split.
      * intros [?|[?|Hin]%elem_of_cons]%elem_of_cons; try done.
        by apply elem_of_nil in Hin.
      * by intros [[?|?] _].
      * done.
      * intros _. right. left.
    + destruct (withheld_effects (status resp)
                  (<["Content-Length" := VNumber 0]> (headers resp))
                  (destroyable (content resp)) (content resp)) as [Hd Hp].
      split; [rewrite Hd; tauto | split; [done | by intros [_ ?]]].
Qed.


(** X19: the listener never rewrites the status, nor any header other than
    [Content-Length]: the head it writes for a response carries the app's
    status and, under every other name, the app's header. *)
Theorem other_headers_untouched req resp name :
  name ≠ "Content-Length" →
  ∃ hs, mach.sent_head (mach.on_response statusHasContent req resp)
          = Some (status resp, hs) ∧
        hs !! name = headers resp !! name.
Proof.
  intros Hname. unfold mach.on_response. simpl.
  eexists. split; [done|].
  destruct (_ && _); [by rewrite lookup_insert_ne | done].
Qed.

End listener.

(** * Properties of [mach.serve] *)

(** X20: the server never listens on port 0 or on an empty socket path: it
    listens on the socket when the options name a non-empty one, and else on
    the port of the options when that is a non-zero number (or a non-empty
    string), and on the default port 3333 in every other case, a port of 0
    included; the host is passed as given. *)
Theorem serve_listens_on_truthy arg :
  match (serve.serveApp arg).2 with
  | serve.listen_socket s =>
      serve.truthy s = true ∧ s = serve.socket (serve.normalize arg)
  | serve.listen_port p h =>
      serve.truthy p = true ∧
      serve.truthy (serve.socket (serve.normalize arg)) = false ∧
      (p = serve.port (serve.normalize arg)
       ∨ serve.truthy (serve.port (serve.normalize arg)) = false
         ∧ p = VNumber 3333) ∧
      h = serve.host (serve.normalize arg)
  end.
Proof.
  unfold serve.serveApp. simpl.
  destruct (serve.truthy (serve.socket _)) eqn:Hs; [done|].
  unfold serve.or.
  destruct (serve.truthy (serve.port _)) eqn:Hp; [by auto | by auto 6].
Qed.

(** X21: a bare number or string is shorthand for the options object with
    that port or that socket, also when it is 0 or empty, in which case it
    stands for no options at all: the same server is created and the same
    [listen] call is made. *)
Theorem serve_shorthand :
  (∀ n, serve.serveApp (serve.ONumber n)
        = serve.serveApp
            (serve.OObject
               {| serve.host := VUndefined; serve.port := VNumber n;
                  serve.socket := VUndefined; serve.key := VUndefined;
                  serve.cert := VUndefined |})) ∧
  (∀ s, serve.serveApp (serve.OString s)
        = serve.serveApp
            (serve.OObject
               {| serve.host := VUndefined; serve.port := VUndefined;
                  serve.socket := VString s; serve.key := VUndefined;
                  serve.cert := VUndefined |})) ∧
  serve.serveApp (serve.ONumber 0) = serve.serveApp serve.OUndefined ∧
  serve.serveApp (serve.OString "") = serve.serveApp serve.OUndefined ∧
  serve.serveApp serve.OUndefined
    = (serve.http_createServer,
       serve.listen_port (VNumber 3333) VUndefined).
Proof.
  split; [|split; [|by repeat split]].
  - intros n.
    unfold serve.serveApp, serve.normalize, serve.or_empty, serve.or.
    simpl. by destruct (n =? 0)%Z eqn:E; simpl; rewrite ?E.
  - intros s. unfold serve.serveApp, serve.normalize, serve.or_empty.
    simpl. by destruct (bool_decide (s = "")) eqn:E; simpl; rewrite ?E.
Qed.

(** * The further properties at work on the example application *)

Lemma route_method_case_get :
  route utils.compileRoute (PString "/") example.home (MString "get")
        example.app
    = route utils.compileRoute (PString "/") example.home (MArray ["GET"])
            example.app.
Proof.
  refine (route_method_case utils.compileRoute (PString "/") example.home
            (MString "get") (MArray ["GET"]) example.app _).
  reflexivity.
Defined.

Lemma route_frame_post :
  bucket (route utils.compileRoute (PString "/x") example.home
                (MString "post") example.app).2 "GET"
    = bucket example.app "GET".
Proof.
  refine (proj1 (route_frame utils.compileRoute (PString "/x") example.home
                   (MString "post") example.app "GET" _)).
  compute_done.
Defined.

Lemma route_pushes_per_method_twice :
  bucket (route utils.compileRoute (PString "/x") example.home
                (MArray ["get"; "GET"; "post"]) example.app).2 "GET"
    = bucket example.app "GET"
      ++ replicate 2 (example.compiled "/x" example.home).
Proof.
  refine (proj2 (route_pushes_per_method utils.compileRoute (PString "/x")
                   example.home (MArray ["get"; "GET"; "post"]) example.app
                   (utils.compileRoute "/x").1 (utils.compileRoute "/x").2
                   "GET" _)).
  reflexivity.
Defined.

Lemma refused_registration_skipped_number :
  configure utils.compileRoute
            (example.overlapping
             ++ CRoute (PNumber 42) example.home MUndefined
                :: [CRun example.home])
            (makeRouter utils.defaultApp None)
    = configure utils.compileRoute (example.overlapping ++ [CRun example.home])
                (makeRouter utils.defaultApp None).
Proof.
  refine (refused_registration_skipped utils.compileRoute (PNumber 42)
            example.home MUndefined example.overlapping [CRun example.home]
            (makeRouter utils.defaultApp None) _ _).
  - discriminate.
  - reflexivity.
Defined.

Lemma bucket_names_upper_case_head :
  is_Some (routes (example.make example.overlapping) !! "HEAD") ∧
  toUpperCase "HEAD" = "HEAD".
Proof.
  split; [eexists; reflexivity|].
  refine (bucket_names_upper_case utils.compileRoute utils.defaultApp None
            example.overlapping "HEAD" _).
  eexists. reflexivity.
Defined.

Lemma inherited_method_refused_constructor :
  router (example.make example.overlapping)
         {| Request.method := "constructor"; Request.pathInfo := "/";
            Request.queryString := ""; Request.route := None |}
    = (Throw TypeError,
       {| Request.method := "constructor"; Request.pathInfo := "/";
          Request.queryString := ""; Request.route := None |}).
Proof.
  refine (inherited_method_refused utils.compileRoute utils.defaultApp None
            example.overlapping _ _).
  reflexivity.
Defined.

Lemma wildcard_route_reachable_ping :
  dispatch (route utils.compileRoute (PString "/ping/:n") example.home
                  MUndefined example.app).2
           {| Request.method := "DELETE"; Request.pathInfo := "/ping/3";
              Request.queryString := ""; Request.route := None |}
    = inr (example.home,
           {| Request.method := "DELETE"; Request.pathInfo := "/ping/3";
              Request.queryString := "";
              Request.route :=
                Some {| elems := [VString "/ping/3"; VString "3"];
                        props := reduce install ["n"] 0 ∅ |} |}).
Proof.
  refine (wildcard_route_reachable utils.compileRoute (PString "/ping/:n")
            example.home example.app (utils.compileRoute "/ping/:n").1 ["n"]
            {| Request.method := "DELETE"; Request.pathInfo := "/ping/3";
               Request.queryString := ""; Request.route := None |}
            [VString "/ping/3"; VString "3"] _ _ _ _ _).
  - reflexivity.
  - compute_done.
  - reflexivity.
  - repeat constructor.
  - reflexivity.
Defined.

Lemma method_routes_before_wildcard_login :
  routesToTry (example.make example.wildcard_first) "GET"
    = inr [ example.compiled "/login" example.login;
            example.compiled "/login" example.home ] ∧
  bucket (example.make example.wildcard_first) "ANY"
    = [example.compiled "/login" example.home] ∧
  first_match [ example.compiled "/login" example.login;
                example.compiled "/login" example.home ] "/login"
    = Some (example.compiled "/login" example.login, [VString "/login"]).
Proof.
  split; [reflexivity|]. split; [reflexivity|].
  refine (method_routes_before_wildcard (example.make example.wildcard_first)
            (example.GET "/login")
            [ example.compiled "/login" example.login;
              example.compiled "/login" example.home ]
            (example.compiled "/login" example.login) [VString "/login"] _ _).
  - reflexivity.
  - reflexivity.
Defined.

Lemma dispatch_keeps_request_fields_user :
  Request.method
    (Request.set_route (example.GET "/users/42")
       {| elems := [VString "/users/42"; VString "42"];
          props := reduce install ["user_id"] 0 ∅ |})
    = Request.method (example.GET "/users/42").
Proof.
  refine (proj1 (dispatch_keeps_request_fields example.app
                   (example.GET "/users/42") example.user
                   (Request.set_route (example.GET "/users/42")
                      {| elems := [VString "/users/42"; VString "42"];
                         props := reduce install ["user_id"] 0 ∅ |}) _)).
  reflexivity.
Defined.

Lemma length_segment_refused_seven :
  router (example.make [CVerb Verb.get (PString "/:length") example.home])
         (example.GET "/7")
    = (Throw TypeError, example.GET "/7").
Proof.
  refine (length_segment_refused (utils.compileRoute "/:length").1
            example.home ["length"]
            (example.make [CVerb Verb.get (PString "/:length") example.home])
            (example.GET "/7")
            [example.compiled "/:length" example.home]
            [VString "/7"; VString "7"] _ _ _).
  - apply list_elem_of_here.
  - reflexivity.
  - reflexivity.
Defined.

Lemma content_response_unchanged_home :
  mach.on_response utils.statusHasContent (example.GET "/")
                   (example.text 200 "Welcome home!")
    = [ mach.writeHead 200 (headers (example.text 200 "Welcome home!"));
        mach.pipe (content (example.text 200 "Welcome home!")) ].
Proof.
  refine (proj1 (content_response_unchanged utils.statusHasContent
                   (example.GET "/") (example.text 200 "Welcome home!") _ _)).
  - discriminate.
  - reflexivity.
Defined.

Lemma other_headers_untouched_not_modified :
  ∃ hs,
    mach.sent_head
      (mach.on_response utils.statusHasContent (example.GET "/")
         (example.text 304 "")) = Some (304%Z, hs) ∧
    hs !! "Content-Type" = headers (example.text 304 "") !! "Content-Type".
Proof.
  refine (other_headers_untouched utils.statusHasContent (example.GET "/")
            (example.text 304 "") "Content-Type" _).
  discriminate.
Defined.
